(** * Verification of efuse_code.py: MP5922 PMBus monitor

    Shallow embedding of the register helpers, the datasheet conversions,
    the fault decoder and the status display of [src/efuse_code.py].
    Python integers are modelled as [Z]; Python floats produced by the
    conversions are modelled as exact rationals [Q] (the scale factors
    0.015625 and 0.125 are powers of two, so the conversions themselves
    are exact in binary64 over the 16-bit raw range). *)

From Stdlib Require Import ZArith QArith List String Bool Lia.
Import ListNotations.
Open Scope string_scope.

(** ** Configuration *)

Definition MP5922_ADDR : Z := 0x70.

(** [PAGES] is a Python dict; [PAGES.items()] iterates in insertion order. *)
Definition PAGES : list (Z * string) :=
  [ (0%Z, "Main Rail (Loop 1)");
    (1%Z, "Aux Rail  (Loop 2)");
    (2%Z, "Rail 3    (Loop 3)") ].

(** ** Datasheet conversions *)

Definition raw_to_voltage (raw : Z) : Q := inject_Z raw * 0.015625.

Definition raw_to_power (raw : Z) : Q := inject_Z raw * 0.125.

(** Python's [x > 0] on the converted readings. *)
Definition Qgtb (x y : Q) : bool := negb (Qle_bool x y).

(** Derived current, the expression [pout / vout if vout > 0 else 0.0]
    of [show_status]. *)
Definition derived_iout (pout vout : Q) : Q :=
  if Qgtb vout 0 then pout / vout else 0.

(** ** Fault decoder *)

(** Python truthiness of [x & mask]. *)
Definition bit_set (x mask : Z) : bool := negb (Z.eqb (Z.land x mask) 0).

(** [if cond: faults.append(name)] *)
Definition append_if (cond : bool) (name : string) (faults : list string)
  : list string :=
  if cond then faults ++ [name] else faults.

Definition decode_faults (sw si sin st : Z) : list string :=
  let faults := [] in
  (* STATUS_WORD (0x79) *)
  let faults := append_if (bit_set sw (Z.shiftl 1 15)) "VOUT_OV" faults in
  let faults := append_if (bit_set sw (Z.shiftl 1 14)) "IOUT_OC" faults in
  let faults := append_if (bit_set sw (Z.shiftl 1 13)) "VIN_UV" faults in
  let faults := append_if (bit_set sw (Z.shiftl 1 12)) "TEMP_FAULT" faults in
  let faults := append_if (bit_set sw (Z.shiftl 1 7)) "DEVICE_FAULT" faults in
  let faults := append_if (bit_set sw (Z.shiftl 1 6)) "POWER_GOOD=NO" faults in
  (* STATUS_IOUT (0x7B) *)
  let faults := append_if (bit_set si 0x01) "IOUT_OC_WARNING" faults in
  let faults := append_if (bit_set si 0x02) "IOUT_OC_FAULT" faults in
  (* STATUS_INPUT (0x7C) *)
  let faults := append_if (bit_set sin 0x01) "VIN_UV_FAULT" faults in
  let faults := append_if (bit_set sin 0x02) "VIN_OV_FAULT" faults in
  (* STATUS_TEMP (0x7D) *)
  let faults := append_if (bit_set st 0x01) "TEMP_WARNING" faults in
  let faults := append_if (bit_set st 0x02) "TEMP_FAULT" faults in
  match faults with
  | [] => ["NO_FAULTS"]
  | _ => faults
  end.

(** The bit table of the decoder as data: which status word (0 = STATUS_WORD,
    1 = STATUS_IOUT, 2 = STATUS_INPUT, 3 = STATUS_TEMP), which bit, which name,
    in the order of the [if] statements. *)
Definition fault_table : list (nat * Z * string) :=
  [ (0%nat, 15%Z, "VOUT_OV"); (0%nat, 14%Z, "IOUT_OC"); (0%nat, 13%Z, "VIN_UV");
    (0%nat, 12%Z, "TEMP_FAULT"); (0%nat, 7%Z, "DEVICE_FAULT");
    (0%nat, 6%Z, "POWER_GOOD=NO");
    (1%nat, 0%Z, "IOUT_OC_WARNING"); (1%nat, 1%Z, "IOUT_OC_FAULT");
    (2%nat, 0%Z, "VIN_UV_FAULT"); (2%nat, 1%Z, "VIN_OV_FAULT");
    (3%nat, 0%Z, "TEMP_WARNING"); (3%nat, 1%Z, "TEMP_FAULT") ].

Definition status_of (sw si sin st : Z) (src : nat) : Z :=
  match src with 0 => sw | 1 => si | 2 => sin | _ => st end%nat.

(** Names of the table entries whose bit is set, in table order. *)
Definition table_hits (sw si sin st : Z) : list string :=
  map (fun e => snd e)
    (filter (fun e => let '(src, b, _) := e in Z.testbit (status_of sw si sin st src) b)
       fault_table).

(** ** Transport and register I/O *)

Open Scope list_scope.

(** Calls observed on the I2C transport (a mock transport's call log);
    [time.sleep] is recorded too so the settle delays stay visible. *)
Inductive event :=
| EvRead (addr reg count : Z)
| EvWrite (addr reg : Z) (data : list Z)
| EvSleep (seconds : Q).

Definition trace := list event.

(** The external transport ([UsbIss().i2c]): its answer may depend on the
    calls made so far. [None] is a raised transport exception. *)
Record transport := {
  tr_read : trace -> Z -> Z -> Z -> option (list Z);
  tr_write : trace -> Z -> Z -> list Z -> bool
}.

Inductive error :=
| TransportError
| IndexError.

Inductive result (A : Type) :=
| Ok (a : A)
| Err (e : error).
Arguments Ok {A} a.
Arguments Err {A} e.

(** Python execution against transport [tr]: the call log is threaded
    through, and kept when an exception aborts the command. *)
Definition M (A : Type) : Type := transport -> trace -> result A * trace.

Definition ret {A} (a : A) : M A := fun _ h => (Ok a, h).

Definition bind {A B} (m : M A) (k : A -> M B) : M B :=
  fun tr h =>
    match m tr h with
    | (Ok a, h') => k a tr h'
    | (Err e, h') => (Err e, h')
    end.

Notation "x <- m ;; k" := (bind m (fun x => k))
  (at level 61, m at next level, right associativity).
Notation "m ;;; k" := (bind m (fun _ => k))
  (at level 61, right associativity).

Definition i2c_read (addr reg count : Z) : M (list Z) :=
  fun tr h =>
    let h' := h ++ [EvRead addr reg count] in
    match tr_read tr h addr reg count with
    | Some d => (Ok d, h')
    | None => (Err TransportError, h')
    end.

Definition i2c_write (addr reg : Z) (data : list Z) : M unit :=
  fun tr h =>
    let h' := h ++ [EvWrite addr reg data] in
    if tr_write tr h addr reg data then (Ok tt, h') else (Err TransportError, h').

Definition sleep (s : Q) : M unit := fun _ h => (Ok tt, h ++ [EvSleep s]).

(** Python list indexing [d[i]]: [IndexError] out of range. *)
Definition py_index (d : list Z) (i : nat) : M Z :=
  fun _ h => match nth_error d i with
             | Some x => (Ok x, h)
             | None => (Err IndexError, h)
             end.

Definition read_word (addr reg : Z) : M Z :=
  d <- i2c_read addr reg 2 ;;
  b0 <- py_index d 0 ;;
  b1 <- py_index d 1 ;;
  ret (Z.lor b0 (Z.shiftl b1 8)).

Definition write_word (addr reg value : Z) : M unit :=
  i2c_write addr reg [Z.land value 0xFF; Z.land (Z.shiftr value 8) 0xFF].

Definition write_byte (addr reg value : Z) : M unit :=
  i2c_write addr reg [Z.land value 0xFF].

Definition select_page (page : Z) : M unit :=
  i2c_write MP5922_ADDR 0x00 [Z.land page 0xFF] ;;;
  sleep 0.01.

(** ** PMBus core actions *)

Definition unlock_mp5922 : M unit :=
  write_word MP5922_ADDR 0xE1 0x82C2 ;;;
  sleep 0.02.

Definition clear_faults : M unit :=
  i2c_write MP5922_ADDR 0x03 [] ;;;
  sleep 0.01.

Definition rail_enable (page : Z) : M unit :=
  select_page page ;;;
  write_byte MP5922_ADDR 0x01 0x80.

Definition rail_disable (page : Z) : M unit :=
  select_page page ;;;
  write_byte MP5922_ADDR 0x01 0x00.

(** ** Status display *)

(** The values [show_status] prints for one page. *)
Record rail_report := {
  rr_page : Z; rr_name : string;
  rr_vin_raw : Z; rr_vout_raw : Z; rr_iout_raw : Z; rr_pout_raw : Z;
  rr_sw : Z; rr_si : Z; rr_sin : Z; rr_st : Z;
  rr_vin : Q; rr_vout : Q; rr_pout : Q; rr_iout : Q;
  rr_faults : list string
}.

(** The values [show_status] prints in the INPUT and POWER SUMMARY blocks. *)
Record system_report := {
  sr_pin_raw : Z; sr_pin_w : Q;
  sr_rails : list rail_report;
  sr_total_pout : Q; sr_loss : Q; sr_eff : Q
}.

(** Body of the [for page, name in PAGES.items()] loop. *)
Definition read_rail (page : Z) (name : string) : M rail_report :=
  select_page page ;;;
  vin_raw <- read_word MP5922_ADDR 0x88 ;;
  vout_raw <- read_word MP5922_ADDR 0x8B ;;
  iout_raw <- read_word MP5922_ADDR 0x8C ;;
  pout_raw <- read_word MP5922_ADDR 0x96 ;;
  sw <- read_word MP5922_ADDR 0x79 ;;
  si <- read_word MP5922_ADDR 0x7B ;;
  sin <- read_word MP5922_ADDR 0x7C ;;
  st <- read_word MP5922_ADDR 0x7D ;;
  let vin := raw_to_voltage vin_raw in
  let vout := raw_to_voltage vout_raw in
  let pout := raw_to_power pout_raw in
  let iout := derived_iout pout vout in
  let faults := decode_faults sw si sin st in
  ret {| rr_page := page; rr_name := name;
         rr_vin_raw := vin_raw; rr_vout_raw := vout_raw;
         rr_iout_raw := iout_raw; rr_pout_raw := pout_raw;
         rr_sw := sw; rr_si := si; rr_sin := sin; rr_st := st;
         rr_vin := vin; rr_vout := vout; rr_pout := pout; rr_iout := iout;
         rr_faults := faults |}.

(** The loop, accumulating [total_pout += pout]. *)
Fixpoint read_rails (pages : list (Z * string)) (total : Q)
  : M (list rail_report * Q) :=
  match pages with
  | [] => ret ([], total)
  | (page, name) :: rest =>
      r <- read_rail page name ;;
      res <- read_rails rest (total + rr_pout r) ;;
      ret (r :: fst res, snd res)
  end.

(** [show_status] over a page table; the program uses [PAGES]. *)
Definition show_status_pages (pages : list (Z * string)) : M system_report :=
  pin_raw <- read_word MP5922_ADDR 0x97 ;;
  let pin_w := raw_to_power pin_raw in
  res <- read_rails pages 0.0 ;;
  let total_pout := snd res in
  let loss := pin_w - total_pout in
  let eff := if Qgtb pin_w 0 then total_pout / pin_w * 100 else 0 in
  ret {| sr_pin_raw := pin_raw; sr_pin_w := pin_w; sr_rails := fst res;
         sr_total_pout := total_pout; sr_loss := loss; sr_eff := eff |}.

Definition show_status : M system_report := show_status_pages PAGES.

(** ** Command line *)

(** [sys.argv[1:]] after [int(...)] conversion of the page argument;
    [NoArgs] is the usage message. *)
Inductive command :=
| NoArgs
| CmdStatus
| CmdOn (page : Z)
| CmdOff (page : Z)
| CmdOnAll
| CmdOffAll
| CmdClear
| CmdUnknown.

Fixpoint for_each (ps : list Z) (f : Z -> M unit) : M unit :=
  match ps with
  | [] => ret tt
  | p :: rest => f p ;;; for_each rest f
  end.

(** [main] between [iss.setup_i2c] and [iss.close()]; printing is omitted. *)
Definition main (cmd : command) : M unit :=
  unlock_mp5922 ;;;
  match cmd with
  | NoArgs => ret tt
  | CmdStatus => show_status ;;; ret tt
  | CmdOn page => rail_enable page
  | CmdOff page => rail_disable page
  | CmdOnAll => for_each (map fst PAGES) rail_enable
  | CmdOffAll => for_each (map fst PAGES) rail_disable
  | CmdClear => clear_faults
  | CmdUnknown => ret tt
  end.

(** A transport on which every call succeeds, every register reading as
    [value reg] (little-endian bytes). *)
Definition ok_transport (value : Z -> Z) : transport := {|
  tr_read := fun _ _ reg n =>
    Some (if Z.eqb n 2 then [Z.land (value reg) 0xFF; Z.shiftr (value reg) 8]
          else [Z.land (value reg) 0xFF]);
  tr_write := fun _ _ _ _ => true
|}.

(** The calls one pass of the [show_status] loop makes for [page]. *)
Definition rail_calls (page : Z) : trace :=
  [ EvWrite MP5922_ADDR 0x00 [Z.land page 0xFF]; EvSleep 0.01;
    EvRead MP5922_ADDR 0x88 2; EvRead MP5922_ADDR 0x8B 2;
    EvRead MP5922_ADDR 0x8C 2; EvRead MP5922_ADDR 0x96 2;
    EvRead MP5922_ADDR 0x79 2; EvRead MP5922_ADDR 0x7B 2;
    EvRead MP5922_ADDR 0x7C 2; EvRead MP5922_ADDR 0x7D 2 ].

(** Sum of the rails' output powers, in loop order. *)
Definition sum_pout (rails : list rail_report) (acc : Q) : Q :=
  fold_left (fun acc r => acc + rr_pout r) rails acc.


(** The calls of [unlock_mp5922] when its write succeeds. *)
Definition unlock_calls : trace :=
  [ EvWrite MP5922_ADDR 0xE1 [0xC2; 0x82]%Z; EvSleep 0.02 ].

(** The calls of [rail_enable]/[rail_disable] when their writes succeed. *)
Definition rail_switch_calls (op page : Z) : trace :=
  [ EvWrite MP5922_ADDR 0x00 [Z.land page 0xFF]; EvSleep 0.01;
    EvWrite MP5922_ADDR 0x01 [op] ].

(** Data of the last write to [addr]/[reg] in a call log. *)
Definition last_write (h : trace) (addr reg : Z) : option (list Z) :=
  fold_left (fun acc e =>
               match e with
               | EvWrite a r d => if Z.eqb a addr && Z.eqb r reg then Some d else acc
               | _ => acc
               end) h None.

(** A device model that answers a read with the bytes last written to that
    register (and fails on a register never written). *)
Definition register_file : transport := {|
  tr_read := fun h addr reg _ => last_write h addr reg;
  tr_write := fun _ _ _ _ => true
|}.



(** A computation only ever appends to the call log. *)
Definition appends {A : Type} (m : M A) : Prop :=
  forall tr h, exists s, snd (m tr h) = h ++ s.

(** * Properties *)

(** ** Bit tests and the decoder table *)

Lemma bit_set_testbit (x n : Z) :
  (0 <= n)%Z -> bit_set x (Z.shiftl 1 n) = Z.testbit x n.
Proof.
  intros Hn. unfold bit_set. rewrite Z.shiftl_1_l.
  destruct (Z.testbit x n) eqn:E.
  - apply negb_true_iff, Z.eqb_neq. intros H0.
    assert (Hb : Z.testbit (Z.land x (2 ^ n)) n = true).
    { rewrite Z.land_spec, E, (Z.pow2_bits_true n) by exact Hn. reflexivity. }
    rewrite H0, Z.bits_0 in Hb. discriminate.
  - apply negb_false_iff, Z.eqb_eq. apply Z.bits_inj'. intros m Hm.
    rewrite Z.land_spec, Z.bits_0, Z.pow2_bits_eqb by exact Hn.
    destruct (Z.eqb_spec n m) as [<-|]; [rewrite E; reflexivity | apply andb_false_r].
Qed.

Lemma bit_set_1 (x : Z) : bit_set x 0x01 = Z.testbit x 0.
Proof. apply (bit_set_testbit x 0); discriminate. Qed.

Lemma bit_set_2 (x : Z) : bit_set x 0x02 = Z.testbit x 1.
Proof. apply (bit_set_testbit x 1); discriminate. Qed.

Lemma append_if_fold {A : Type} (p : A -> bool) (f : A -> string)
      (l : list A) (acc : list string) :
  fold_left (fun acc e => append_if (p e) (f e) acc) l acc
  = acc ++ map f (filter p l).
Proof.
  revert acc; induction l as [|e l IH]; intros acc; simpl.
  - symmetry; apply app_nil_r.
  - rewrite IH. unfold append_if. destruct (p e); simpl.
    + rewrite <- app_assoc. reflexivity.
    + reflexivity.
Qed.

(** The decoder is the bit table read in order: the names of the set bits,
    or the sentinel when there is none. *)
Lemma decode_faults_table (sw si sin st : Z) :
  decode_faults sw si sin st =
  match table_hits sw si sin st with
  | [] => ["NO_FAULTS"]
  | _ => table_hits sw si sin st
  end.
Proof.
  unfold table_hits. rewrite <- (app_nil_l (map _ _)).
  rewrite <- (append_if_fold
                (fun e => let '(src, b, _) := e in Z.testbit (status_of sw si sin st src) b)
                (fun e => snd e)).
  unfold decode_faults. cbv zeta.
  rewrite !bit_set_1, !bit_set_2, !bit_set_testbit by discriminate.
  reflexivity.
Qed.

Lemma filter_all_false {A : Type} (p : A -> bool) (l : list A) :
  (forall x, In x l -> p x = false) -> filter p l = [].
Proof.
  induction l as [|x l IH]; intros H; simpl; [reflexivity|].
  rewrite (H x (or_introl eq_refl)). apply IH. intros y Hy. apply H. right; exact Hy.
Qed.

(** ** C1: no duplicate fault names *)

(** C1 (code_bug). The claim: decode never lists a fault name twice, and
    STATUS_WORD bit 12 together with STATUS_TEMP bit 1 gives two distinct
    temperature-fault names. The decoder appends the same string
    "TEMP_FAULT" for both bits, so with STATUS_WORD = 0x1000 and
    STATUS_TEMP = 0x02 the result is "TEMP_FAULT" twice. *)
Theorem decode_faults_temp_duplicate :
  decode_faults 0x1000 0 0 0x02 = ["TEMP_FAULT"; "TEMP_FAULT"] /\
  ~ NoDup (decode_faults 0x1000 0 0 0x02).
Proof.
  split; [reflexivity|].
  change (decode_faults 0x1000 0 0 0x02) with ["TEMP_FAULT"; "TEMP_FAULT"].
  intros H. inversion H as [|x l Hnot Hnd]. apply Hnot. left; reflexivity.
Qed.

(** ** C2: the all-bits scenario *)

(** C2 (counterexample). The claim: decode(0xC0C0, 0x03, 0x03, 0x03)
    returns all twelve names of the table. 0xC0C0 sets STATUS_WORD bits
    15, 14, 7 and 6 only, so the result has ten names, not twelve. *)
Lemma decode_faults_C0C0_not_twelve :
  List.length (decode_faults 0xC0C0 0x03 0x03 0x03) <> 12%nat /\
  decode_faults 0xC0C0 0x03 0x03 0x03 <> map snd fault_table.
Proof. split; vm_compute; discriminate. Qed.

(** C2 (amended). decode(0xC0C0, 0x03, 0x03, 0x03) returns the ten names
    of the table other than VIN_UV (bit 13) and the STATUS_WORD TEMP_FAULT
    (bit 12), in table order. *)
Theorem decode_faults_C0C0 :
  decode_faults 0xC0C0 0x03 0x03 0x03 =
  [ "VOUT_OV"; "IOUT_OC"; "DEVICE_FAULT"; "POWER_GOOD=NO";
    "IOUT_OC_WARNING"; "IOUT_OC_FAULT"; "VIN_UV_FAULT"; "VIN_OV_FAULT";
    "TEMP_WARNING"; "TEMP_FAULT" ].
Proof. reflexivity. Qed.

(** ** C6: the result is never empty *)

(** C6. For all four status words the decoded list is non-empty; when no
    bit of the table is set it is exactly the sentinel ["NO_FAULTS"]
    (the spec's "no faults"); decode(0,0,0,0) is that sentinel and
    decode(0x8000,0,0,0) is ["VOUT_OV"] (the spec's "VOUT overvoltage"). *)
Theorem decode_faults_nonempty :
  (forall sw si sin st, decode_faults sw si sin st <> []) /\
  (forall sw si sin st,
     (forall src b name, In (src, b, name) fault_table ->
        Z.testbit (status_of sw si sin st src) b = false) ->
     decode_faults sw si sin st = ["NO_FAULTS"]) /\
  decode_faults 0 0 0 0 = ["NO_FAULTS"] /\
  decode_faults 0x8000 0 0 0 = ["VOUT_OV"].
Proof.
  split; [|split; [|split; reflexivity]].
  - intros sw si sin st. rewrite decode_faults_table.
    destruct (table_hits sw si sin st); discriminate.
  - intros sw si sin st H. rewrite decode_faults_table.
    unfold table_hits at 1. rewrite filter_all_false; [reflexivity|].
    intros [[src b] name] Hin. exact (H src b name Hin).
Qed.

(** ** C7: the conversions *)

(** C7. [raw_to_voltage] and [raw_to_power] are the scalings by 0.015625
    and 0.125, additive, homogeneous and monotone in the raw value, with
    voltage(0) = 0, voltage(64) = 1, power(0) = 0 and power(8) = 1 exactly. *)
Theorem conversions_linear_monotone :
  (forall raw, raw_to_voltage raw = inject_Z raw * 0.015625) /\
  (forall raw, raw_to_power raw = inject_Z raw * 0.125) /\
  (forall a b, raw_to_voltage (a + b) == raw_to_voltage a + raw_to_voltage b) /\
  (forall a b, raw_to_power (a + b) == raw_to_power a + raw_to_power b) /\
  (forall k a, raw_to_voltage (k * a) == inject_Z k * raw_to_voltage a) /\
  (forall k a, raw_to_power (k * a) == inject_Z k * raw_to_power a) /\
  (forall a b, (a <= b)%Z -> raw_to_voltage a <= raw_to_voltage b) /\
  (forall a b, (a <= b)%Z -> raw_to_power a <= raw_to_power b) /\
  raw_to_voltage 0 == 0 /\ raw_to_voltage 64 == 1 /\
  raw_to_power 0 == 0 /\ raw_to_power 8 == 1.
Proof.
  unfold raw_to_voltage, raw_to_power.
  repeat split; intros; rewrite ?inject_Z_plus, ?inject_Z_mult;
    try ring;
    try (apply Qmult_le_compat_r; [rewrite <- Zle_Qle; assumption | discriminate]).
Qed.

(** ** C5: the derived current *)

(** C5. The derived current is exactly 0 whenever the voltage is at most 0,
    for any power, and power / voltage when the voltage is positive, so the
    division is only evaluated on a positive divisor. *)
Theorem derived_iout_guard :
  forall pout vout,
    (vout <= 0 -> derived_iout pout vout = 0) /\
    (0 < vout -> derived_iout pout vout = pout / vout).
Proof.
  intros pout vout. unfold derived_iout, Qgtb. split; intros H.
  - apply Qle_bool_iff in H. rewrite H. reflexivity.
  - destruct (Qle_bool vout 0) eqn:E; [|reflexivity].
    apply Qle_bool_iff in E. exfalso. apply (Qlt_not_le _ _ H E).
Qed.

(** ** Register I/O *)

Lemma read_word_spec (addr reg : Z) (tr : transport) (h : trace) :
  read_word addr reg tr h =
  (match tr_read tr h addr reg 2 with
   | Some (b0 :: b1 :: _) => Ok (Z.lor b0 (Z.shiftl b1 8))
   | Some _ => Err IndexError
   | None => Err TransportError
   end, h ++ [EvRead addr reg 2]).
Proof.
  unfold read_word, bind, i2c_read, py_index, ret.
  destruct (tr_read tr h addr reg 2) as [[|b0 [|b1 rest]]|]; reflexivity.
Qed.

Ltac run_step H :=
  first
  [ rewrite read_word_spec in H
  | match type of H with
    | context [tr_read ?t ?hh ?a ?r ?n] =>
        destruct (tr_read t hh a r n) as [[|? [|? ?]]|]; simpl in H; try discriminate H
    | context [tr_write ?t ?hh ?a ?r ?d] =>
        destruct (tr_write t hh a r d); simpl in H; try discriminate H
    end ].

Lemma read_rail_ok (page : Z) (name : string) (tr : transport) (h h' : trace)
      (r : rail_report) :
  read_rail page name tr h = (Ok r, h') ->
  h' = h ++ rail_calls page /\ rr_page r = page /\
  rr_vout r = raw_to_voltage (rr_vout_raw r) /\
  rr_pout r = raw_to_power (rr_pout_raw r) /\
  rr_iout r = derived_iout (rr_pout r) (rr_vout r).
Proof.
  intros H. unfold read_rail, select_page, write_byte, bind, i2c_write, sleep, ret in H.
  simpl in H. repeat run_step H.
  injection H as <- <-. rewrite <- !app_assoc. repeat split.
Qed.

(** What one successful pass of the loop guarantees about a report. *)
Definition rail_consistent (r : rail_report) : Prop :=
  rr_vout r = raw_to_voltage (rr_vout_raw r) /\
  rr_pout r = raw_to_power (rr_pout_raw r) /\
  rr_iout r = derived_iout (rr_pout r) (rr_vout r).

Lemma read_rails_ok (pages : list (Z * string)) (total : Q) (tr : transport)
      (h h' : trace) (rs : list rail_report) (t : Q) :
  read_rails pages total tr h = (Ok (rs, t), h') ->
  h' = h ++ flat_map (fun pn => rail_calls (fst pn)) pages /\
  map rr_page rs = map fst pages /\
  t = sum_pout rs total /\
  Forall rail_consistent rs.
Proof.
  revert total h rs t. induction pages as [|[page name] rest IH];
    intros total h rs t H; simpl in H.
  - injection H as <- <- <-. rewrite app_nil_r. repeat split; constructor.
  - unfold bind in H.
    destruct (read_rail page name tr h) as [[r|e] h1] eqn:E1; [|discriminate H].
    destruct (read_rails rest (total + rr_pout r) tr h1) as [[[rs' t']|e] h2] eqn:E2;
      [|discriminate H].
    unfold ret in H; simpl in H. injection H as <- <- <-.
    destruct (read_rail_ok _ _ _ _ _ _ E1) as (-> & Hp & Hc).
    destruct (IH _ _ _ _ E2) as (-> & Hps & Ht & Hf).
    simpl. rewrite <- app_assoc, Hp, Hps. repeat split; [exact Ht|constructor; assumption].
Qed.

Lemma show_status_pages_ok (pages : list (Z * string)) (tr : transport)
      (h h' : trace) (rep : system_report) :
  show_status_pages pages tr h = (Ok rep, h') ->
  h' = h ++ EvRead MP5922_ADDR 0x97 2 :: flat_map (fun pn => rail_calls (fst pn)) pages /\
  map rr_page (sr_rails rep) = map fst pages /\
  sr_pin_w rep = raw_to_power (sr_pin_raw rep) /\
  sr_total_pout rep = sum_pout (sr_rails rep) 0.0 /\
  sr_loss rep = sr_pin_w rep - sr_total_pout rep /\
  sr_eff rep = (if Qgtb (sr_pin_w rep) 0
                then sr_total_pout rep / sr_pin_w rep * 100 else 0) /\
  Forall rail_consistent (sr_rails rep).
Proof.
  intros H. unfold show_status_pages, bind in H. rewrite read_word_spec in H.
  destruct (tr_read tr h MP5922_ADDR 0x97 2) as [[|b0 [|b1 ?]]|]; try discriminate H.
  destruct (read_rails pages 0.0 tr _) as [[[rs t]|e] h2] eqn:E; [|discriminate H].
  unfold ret in H. injection H as <- <-.
  destruct (read_rails_ok _ _ _ _ _ _ _ E) as (-> & Hps & Ht & Hf).
  rewrite <- app_assoc. simpl. repeat split; assumption.
Qed.

Lemma land_ff (v : Z) : Z.land v 0xFF = (v mod 256)%Z.
Proof. change 0xFF%Z with (Z.ones 8). rewrite Z.land_ones by discriminate. reflexivity. Qed.

(** ** C3: rail index is not range-checked *)

(** C3 (counterexample). The claim: enabling or disabling a rail index
    outside [PAGES] fails before any register access. Page 3 is not a
    configured rail, yet [main] with [on 3] / [off 3] issues the page-select
    write of 3 to register 0x00 and the operation write to register 0x01. *)
Lemma rail_enable_unknown_page :
  ~ In 3%Z (map fst PAGES) /\
  main (CmdOn 3) (ok_transport (fun _ => 0%Z)) [] =
  (Ok tt, [ EvWrite MP5922_ADDR 0xE1 [0xC2; 0x82]%Z; EvSleep 0.02;
            EvWrite MP5922_ADDR 0x00 [3%Z]; EvSleep 0.01;
            EvWrite MP5922_ADDR 0x01 [0x80%Z] ]) /\
  main (CmdOff 3) (ok_transport (fun _ => 0%Z)) [] =
  (Ok tt, [ EvWrite MP5922_ADDR 0xE1 [0xC2; 0x82]%Z; EvSleep 0.02;
            EvWrite MP5922_ADDR 0x00 [3%Z]; EvSleep 0.01;
            EvWrite MP5922_ADDR 0x01 [0x00%Z] ]).
Proof.
  split; [|split; reflexivity].
  simpl. intros [H|[H|[H|H]]]; discriminate H || exact H.
Qed.

(** C3 (amended). Rail enable and disable check no range: for every integer
    index, on a transport whose writes succeed, they issue the page-select
    write of (index mod 256) to register 0x00, a 10 ms sleep and the
    operation write (0x80 on, 0x00 off) to register 0x01; the [on] and [off]
    commands of [main] issue the unlock write first. *)
Theorem rail_enable_no_range_check :
  forall (tr : transport) (h : trace) (page : Z),
    (forall h0 a r d, tr_write tr h0 a r d = true) ->
    rail_enable page tr h =
      (Ok tt, h ++ [ EvWrite MP5922_ADDR 0x00 [(page mod 256)%Z]; EvSleep 0.01;
                     EvWrite MP5922_ADDR 0x01 [0x80%Z] ]) /\
    rail_disable page tr h =
      (Ok tt, h ++ [ EvWrite MP5922_ADDR 0x00 [(page mod 256)%Z]; EvSleep 0.01;
                     EvWrite MP5922_ADDR 0x01 [0x00%Z] ]) /\
    main (CmdOn page) tr h =
      (Ok tt, h ++ [ EvWrite MP5922_ADDR 0xE1 [0xC2; 0x82]%Z; EvSleep 0.02;
                     EvWrite MP5922_ADDR 0x00 [(page mod 256)%Z]; EvSleep 0.01;
                     EvWrite MP5922_ADDR 0x01 [0x80%Z] ]) /\
    main (CmdOff page) tr h =
      (Ok tt, h ++ [ EvWrite MP5922_ADDR 0xE1 [0xC2; 0x82]%Z; EvSleep 0.02;
                     EvWrite MP5922_ADDR 0x00 [(page mod 256)%Z]; EvSleep 0.01;
                     EvWrite MP5922_ADDR 0x01 [0x00%Z] ]).
Proof.
  intros tr h page Hw.
  unfold main, unlock_mp5922, rail_enable, rail_disable, select_page,
    write_word, write_byte, bind, i2c_write, sleep.
  rewrite !Hw, !land_ff, <- !app_assoc. repeat split.
Qed.

Lemma rail_enable_no_range_check_witness :
  (forall h0 a r d, tr_write (ok_transport (fun _ => 0%Z)) h0 a r d = true) /\
  rail_enable 3 (ok_transport (fun _ => 0%Z)) [] =
    (Ok tt, [] ++ [ EvWrite MP5922_ADDR 0x00 [(3 mod 256)%Z]; EvSleep 0.01;
                    EvWrite MP5922_ADDR 0x01 [0x80%Z] ]).
Proof.
  split; [reflexivity|].
  apply (rail_enable_no_range_check (ok_transport (fun _ => 0%Z)) [] 3).
  reflexivity.
Defined.

(** ** C4: loss and efficiency *)

(** C4. For every report of a successful status read: the total is the sum
    of the rails' output powers, loss = pin - total, efficiency is 0 when
    pin <= 0 and total / pin * 100 otherwise, and pin = 0 gives
    loss = -total, unclamped. *)
Theorem show_status_summary :
  forall (pages : list (Z * string)) (tr : transport) (h h' : trace)
         (rep : system_report),
    show_status_pages pages tr h = (Ok rep, h') ->
    sr_total_pout rep = sum_pout (sr_rails rep) 0.0 /\
    sr_loss rep = sr_pin_w rep - sr_total_pout rep /\
    (sr_pin_w rep <= 0 -> sr_eff rep = 0) /\
    (0 < sr_pin_w rep -> sr_eff rep = sr_total_pout rep / sr_pin_w rep * 100) /\
    (sr_pin_w rep == 0 -> sr_loss rep == - sr_total_pout rep).
Proof.
  intros pages tr h h' rep H.
  destruct (show_status_pages_ok _ _ _ _ _ H) as (_ & _ & _ & Ht & Hl & He & _).
  split; [exact Ht|]. split; [exact Hl|].
  rewrite He. unfold Qgtb. split; [|split].
  - intros Hle. apply Qle_bool_iff in Hle. rewrite Hle. reflexivity.
  - intros Hlt. destruct (Qle_bool (sr_pin_w rep) 0) eqn:E; [|reflexivity].
    apply Qle_bool_iff in E. exfalso. apply (Qlt_not_le _ _ Hlt E).
  - intros H0. rewrite Hl, H0. ring.
Qed.

(** A transport whose input power reads 0 and every other register 0x40. *)
Definition zero_pin_transport : transport :=
  ok_transport (fun reg => if Z.eqb reg 0x97 then 0%Z else 0x40%Z).

Lemma show_status_summary_witness :
  exists rep h',
    show_status_pages PAGES zero_pin_transport [] = (Ok rep, h') /\
    sr_total_pout rep = sum_pout (sr_rails rep) 0.0 /\
    sr_loss rep = sr_pin_w rep - sr_total_pout rep /\
    (sr_pin_w rep <= 0 -> sr_eff rep = 0) /\
    (0 < sr_pin_w rep -> sr_eff rep = sr_total_pout rep / sr_pin_w rep * 100) /\
    (sr_pin_w rep == 0 -> sr_loss rep == - sr_total_pout rep).
Proof.
  eexists; eexists. split; [cbv; reflexivity|].
  eapply (show_status_summary PAGES zero_pin_transport []). cbv; reflexivity.
Defined.

(** ** C8: the call log of a status read *)

(** C8. For every page table, a successful status read issues exactly one
    read of READ_PIN (0x97), then for each page in table order the
    page-select write followed by the reads of 0x88, 0x8B, 0x8C, 0x96,
    0x79, 0x7B, 0x7C and 0x7D, and nothing else; its reports are in
    table order. *)
Theorem show_status_call_log :
  forall (pages : list (Z * string)) (tr : transport) (h h' : trace)
         (rep : system_report),
    show_status_pages pages tr h = (Ok rep, h') ->
    h' = h ++ EvRead MP5922_ADDR 0x97 2
               :: flat_map (fun pn => rail_calls (fst pn)) pages /\
    map rr_page (sr_rails rep) = map fst pages.
Proof.
  intros pages tr h h' rep H.
  destruct (show_status_pages_ok _ _ _ _ _ H) as (Hh & Hp & _).
  split; assumption.
Qed.

Lemma show_status_call_log_witness :
  exists rep h',
    show_status_pages PAGES zero_pin_transport [] = (Ok rep, h') /\
    h' = [] ++ EvRead MP5922_ADDR 0x97 2
               :: flat_map (fun pn => rail_calls (fst pn)) PAGES /\
    map rr_page (sr_rails rep) = map fst PAGES.
Proof.
  eexists; eexists. split; [cbv; reflexivity|].
  eapply (show_status_call_log PAGES zero_pin_transport []). cbv; reflexivity.
Defined.

(** ** C9: word reads *)

(** C9. [read_word] issues one transport read of exactly 2 bytes; with at
    least two bytes back it returns byte0 | byte1 << 8; with fewer it raises
    [IndexError] instead of filling the missing bytes with zero. *)
Theorem read_word_little_endian :
  forall (addr reg : Z) (tr : transport) (h : trace),
    snd (read_word addr reg tr h) = h ++ [EvRead addr reg 2] /\
    (forall b0 b1 rest, tr_read tr h addr reg 2 = Some (b0 :: b1 :: rest) ->
       fst (read_word addr reg tr h) = Ok (Z.lor b0 (Z.shiftl b1 8))) /\
    (forall d, tr_read tr h addr reg 2 = Some d -> (List.length d < 2)%nat ->
       fst (read_word addr reg tr h) = Err IndexError).
Proof.
  intros addr reg tr h. rewrite read_word_spec. simpl.
  split; [reflexivity|split].
  - intros b0 b1 rest E. rewrite E. reflexivity.
  - intros d E Hlen. rewrite E.
    destruct d as [|b0 [|b1 rest]]; [reflexivity|reflexivity|simpl in Hlen; lia].
Qed.

(** ** C10: writes truncate their values *)

(** C10. For every integer value: [write_word] sends (value mod 2^16) as its
    low byte then its high byte, [write_byte] sends value mod 2^8, and
    [select_page] sends value mod 2^8 to register 0x00 (then sleeps if the
    write succeeded); every byte sent lies in 0..255. *)
Theorem writes_truncate :
  forall (tr : transport) (h : trace) (addr reg value : Z),
    snd (write_word addr reg value tr h) =
      h ++ [EvWrite addr reg [(value mod 2^16) mod 256; (value mod 2^16) / 256]%Z] /\
    snd (write_byte addr reg value tr h) =
      h ++ [EvWrite addr reg [(value mod 2^8)%Z]] /\
    snd (select_page value tr h) =
      h ++ EvWrite MP5922_ADDR 0x00 [(value mod 2^8)%Z]
         :: (if tr_write tr h MP5922_ADDR 0x00 [(value mod 2^8)%Z]
             then [EvSleep 0.01] else []) /\
    (0 <= (value mod 2^16) mod 256 < 256)%Z /\
    (0 <= (value mod 2^16) / 256 < 256)%Z /\
    (0 <= value mod 2^8 < 256)%Z.
Proof.
  intros tr h addr reg value.
  unfold write_word, write_byte, select_page, bind, i2c_write, sleep.
  rewrite !land_ff, Z.shiftr_div_pow2 by discriminate.
  change (2 ^ 8)%Z with 256%Z. change (2 ^ 16)%Z with 65536%Z.
  assert (E : [value mod 256; (value / 256) mod 256]%Z
              = [(value mod 65536) mod 256; (value mod 65536) / 256]%Z).
  { f_equal; [|f_equal]; Z.to_euclidean_division_equations; lia. }
  rewrite <- E.
  repeat split;
    try (destruct (tr_write _ _ _ _ _); reflexivity);
    try (destruct (tr_write _ _ _ _ _); simpl; rewrite <- ?app_assoc; reflexivity);
    Z.to_euclidean_division_equations; lia.
Qed.

(** * Further properties of efuse_code.py *)

(** ** The decoder *)

(** The decoder lists, in the order of its [if] statements, the name of
    every table bit set in its four inputs, and ["NO_FAULTS"] alone when
    none is set. *)
Theorem decode_faults_set_bits_in_order (sw si sin st : Z) :
  decode_faults sw si sin st =
  match table_hits sw si sin st with
  | [] => ["NO_FAULTS"]
  | _ => table_hits sw si sin st
  end.
Proof. apply decode_faults_table. Qed.



Lemma bit_set_land (x m k : Z) :
  Z.land m k = k -> bit_set (Z.land x m) k = bit_set x k.
Proof. intros H. unfold bit_set. rewrite <- Z.land_assoc, H. reflexivity. Qed.

(** Bits outside the table are ignored: only bits 15, 14, 13, 12, 7, 6 of
    STATUS_WORD (mask 0xF0C0) and bits 0, 1 of the other three words count. *)
Theorem decode_faults_masked (sw si sin st : Z) :
  decode_faults sw si sin st =
  decode_faults (Z.land sw 0xF0C0) (Z.land si 0x03) (Z.land sin 0x03) (Z.land st 0x03).
Proof.
  unfold decode_faults. rewrite !bit_set_land by reflexivity. reflexivity.
Qed.

(** ** Word writes and reads *)

Lemma le16_compose (v : Z) :
  Z.lor (Z.land v 0xFF) (Z.shiftl (Z.land (Z.shiftr v 8) 0xFF) 8) = (v mod 2 ^ 16)%Z.
Proof.
  change 0xFF%Z with (Z.ones 8). rewrite !Z.land_ones by discriminate.
  apply Z.bits_inj'. intros n Hn. rewrite Z.lor_spec.
  destruct (Z.lt_ge_cases n 8) as [Hlt|Hge].
  - rewrite Z.shiftl_spec_low by exact Hlt.
    rewrite !Z.mod_pow2_bits_low by lia. apply orb_false_r.
  - rewrite (Z.mod_pow2_bits_high v 8 n) by lia.
    rewrite Z.shiftl_spec_high by lia.
    destruct (Z.lt_ge_cases n 16) as [Hlt16|Hge16].
    + rewrite !Z.mod_pow2_bits_low by lia.
      rewrite Z.shiftr_spec by lia. replace (n - 8 + 8)%Z with n by lia. reflexivity.
    + rewrite !Z.mod_pow2_bits_high by lia. reflexivity.
Qed.

Lemma last_write_app (h : trace) (addr reg : Z) (d : list Z) :
  last_write (h ++ [EvWrite addr reg d]) addr reg = Some d.
Proof.
  unfold last_write. rewrite fold_left_app. simpl.
  rewrite !Z.eqb_refl. reflexivity.
Qed.

(** Writing a word to a register and reading it back from a device that
    stores what it is sent yields the value modulo 2^16: [write_word]'s
    little-endian split and [read_word]'s composition are inverse on
    16-bit values. *)
Theorem write_word_read_word (addr reg value : Z) (h : trace) :
  (write_word addr reg value ;;; read_word addr reg) register_file h =
  (Ok (value mod 2 ^ 16)%Z,
   h ++ [ EvWrite addr reg [Z.land value 0xFF; Z.land (Z.shiftr value 8) 0xFF];
          EvRead addr reg 2 ]).
Proof.
  unfold bind at 1. unfold write_word, i2c_write. simpl tr_write. cbv iota beta.
  rewrite read_word_spec. simpl tr_read. rewrite last_write_app.
  rewrite le16_compose, <- app_assoc. reflexivity.
Qed.

(** On a transport that answers with bytes (0..255), a word read yields
    byte0 + 256 * byte1, a value in 0..65535. *)
Theorem read_word_bytes_range (addr reg : Z) (tr : transport) (h : trace)
        (b0 b1 : Z) (rest : list Z) :
  tr_read tr h addr reg 2 = Some (b0 :: b1 :: rest) ->
  (0 <= b0 < 256)%Z -> (0 <= b1 < 256)%Z ->
  fst (read_word addr reg tr h) = Ok (b0 + 256 * b1)%Z /\
  (0 <= b0 + 256 * b1 < 65536)%Z.
Proof.
  intros E H0 H1. rewrite read_word_spec, E. cbn [fst]. split; [|lia].
  f_equal. rewrite Z.shiftl_mul_pow2 by discriminate.
  assert (Hl : Z.land b0 (b1 * 2 ^ 8) = 0%Z).
  { apply Z.bits_inj'. intros n Hn. rewrite Z.land_spec, Z.bits_0.
    destruct (Z.lt_ge_cases n 8).
    - rewrite <- Z.shiftl_mul_pow2 by discriminate.
      rewrite Z.shiftl_spec_low by assumption. apply andb_false_r.
    - rewrite <- (Z.mod_small b0 (2 ^ 8)) by (simpl; lia).
      rewrite Z.mod_pow2_bits_high by lia. reflexivity. }
  rewrite <- (Z.lxor_lor _ _ Hl), <- (Z.add_nocarry_lxor _ _ Hl).
  change (2 ^ 8)%Z with 256%Z. rewrite (Z.mul_comm b1). reflexivity.
Qed.

Lemma read_word_bytes_range_witness :
  tr_read (ok_transport (fun _ => 0x1234%Z)) [] MP5922_ADDR 0x88 2
    = Some [0x34; 0x12]%Z /\ (0 <= 0x34 < 256)%Z /\ (0 <= 0x12 < 256)%Z /\
  fst (read_word MP5922_ADDR 0x88 (ok_transport (fun _ => 0x1234%Z)) [])
    = Ok (0x34 + 256 * 0x12)%Z /\ (0 <= 0x34 + 256 * 0x12 < 65536)%Z.
Proof.
  split; [reflexivity|]. split; [lia|]. split; [lia|].
  apply (read_word_bytes_range MP5922_ADDR 0x88 (ok_transport (fun _ => 0x1234%Z))
           [] 0x34 0x12 []); [reflexivity | lia | lia].
Defined.

(** ** The call log only grows *)

Create HintDb appends_db.

Lemma appends_ret {A} (a : A) : appends (ret a).
Proof. intros tr h. exists []. symmetry. apply app_nil_r. Qed.

Lemma appends_bind {A B} (m : M A) (k : A -> M B) :
  appends m -> (forall a, appends (k a)) -> appends (bind m k).
Proof.
  intros Hm Hk tr h. unfold bind.
  destruct (Hm tr h) as [s1 Hs1].
  destruct (m tr h) as [[a|e] h1]; simpl in Hs1; subst h1.
  - destruct (Hk a tr (h ++ s1)) as [s2 Hs2]. exists (s1 ++ s2).
    rewrite Hs2, app_assoc. reflexivity.
  - exists s1. reflexivity.
Qed.

Lemma appends_i2c_read a r n : appends (i2c_read a r n).
Proof.
  intros tr h. exists [EvRead a r n]. unfold i2c_read.
  destruct (tr_read tr h a r n); reflexivity.
Qed.

Lemma appends_i2c_write a r d : appends (i2c_write a r d).
Proof.
  intros tr h. exists [EvWrite a r d]. unfold i2c_write.
  destruct (tr_write tr h a r d); reflexivity.
Qed.

Lemma appends_sleep s : appends (sleep s).
Proof. intros tr h. exists [EvSleep s]. reflexivity. Qed.

Lemma appends_py_index d i : appends (py_index d i).
Proof.
  intros tr h. exists []. unfold py_index.
  destruct (nth_error d i); simpl; symmetry; apply app_nil_r.
Qed.

#[local] Hint Resolve appends_ret appends_bind appends_i2c_read appends_i2c_write
  appends_sleep appends_py_index : appends_db.

Ltac appends_auto :=
  repeat (intros || apply appends_bind || apply appends_ret);
  eauto with appends_db.

Lemma appends_read_word a r : appends (read_word a r).
Proof. unfold read_word. appends_auto. Qed.

Lemma appends_select_page p : appends (select_page p).
Proof. unfold select_page. appends_auto. Qed.

Lemma appends_write_byte a r v : appends (write_byte a r v).
Proof. unfold write_byte. appends_auto. Qed.

Lemma appends_write_word a r v : appends (write_word a r v).
Proof. unfold write_word. appends_auto. Qed.

#[local] Hint Resolve appends_read_word appends_select_page appends_write_byte
  appends_write_word : appends_db.

Lemma appends_read_rail p n : appends (read_rail p n).
Proof. unfold read_rail. appends_auto. Qed.

#[local] Hint Resolve appends_read_rail : appends_db.

Lemma appends_read_rails ps t : appends (read_rails ps t).
Proof.
  revert t. induction ps as [|[p n] rest IH]; intros t; simpl; appends_auto.
Qed.

Lemma appends_for_each ps f : (forall p, appends (f p)) -> appends (for_each ps f).
Proof. intros Hf. induction ps as [|p rest IH]; simpl; appends_auto. Qed.

#[local] Hint Resolve appends_read_rails appends_for_each : appends_db.

Lemma appends_show_status_pages ps : appends (show_status_pages ps).
Proof. unfold show_status_pages. appends_auto. Qed.

#[local] Hint Resolve appends_show_status_pages : appends_db.

Lemma appends_command cmd :
  appends (match cmd with
           | NoArgs => ret tt
           | CmdStatus => show_status ;;; ret tt
           | CmdOn page => rail_enable page
           | CmdOff page => rail_disable page
           | CmdOnAll => for_each (map fst PAGES) rail_enable
           | CmdOffAll => for_each (map fst PAGES) rail_disable
           | CmdClear => clear_faults
           | CmdUnknown => ret tt
           end).
Proof.
  destruct cmd; unfold show_status, rail_enable, rail_disable, clear_faults;
    appends_auto; unfold rail_enable, rail_disable; appends_auto.
Qed.

Lemma unlock_run (tr : transport) (h : trace) :
  unlock_mp5922 tr h =
  if tr_write tr h MP5922_ADDR 0xE1 [0xC2; 0x82]%Z
  then (Ok tt, h ++ unlock_calls)
  else (Err TransportError, h ++ [EvWrite MP5922_ADDR 0xE1 [0xC2; 0x82]%Z]).
Proof.
  unfold unlock_mp5922, write_word, bind, i2c_write, sleep, unlock_calls.
  change (Z.land 0x82C2 0xFF) with 0xC2%Z.
  change (Z.land (Z.shiftr 0x82C2 8) 0xFF) with 0x82%Z.
  destruct (tr_write tr h MP5922_ADDR 0xE1 [0xC2; 0x82]%Z); cbv beta iota;
    [rewrite <- app_assoc|]; reflexivity.
Qed.

(** Every command of [main] starts by sending the password 0x82C2 (bytes
    0xC2, 0x82) to register 0xE1; if that write raises, the command stops
    there with nothing else sent. *)
Theorem main_unlocks_first (cmd : command) (tr : transport) (h : trace) :
  (exists rest, snd (main cmd tr h)
                = h ++ EvWrite MP5922_ADDR 0xE1 [0xC2; 0x82]%Z :: rest) /\
  (tr_write tr h MP5922_ADDR 0xE1 [0xC2; 0x82]%Z = false ->
   main cmd tr h = (Err TransportError, h ++ [EvWrite MP5922_ADDR 0xE1 [0xC2; 0x82]%Z])).
Proof.
  split.
  - unfold main, bind at 1. rewrite unlock_run.
    destruct (tr_write tr h MP5922_ADDR 0xE1 [0xC2; 0x82]%Z).
    + destruct (appends_command cmd tr (h ++ unlock_calls)) as [s Hs].
      exists (EvSleep 0.02 :: s). rewrite Hs, <- app_assoc. reflexivity.
    + exists []. reflexivity.
  - intros Hf. unfold main, bind at 1. rewrite unlock_run, Hf. reflexivity.
Qed.

(** ** A status read follows its fixed sequence, whatever the transport *)







(** ** The other commands of [main] *)

Lemma for_each_run (ps : list Z) (f : Z -> M unit) (g : Z -> trace)
      (tr : transport) (h : trace) :
  (forall p h0, f p tr h0 = (Ok tt, h0 ++ g p)) ->
  for_each ps f tr h = (Ok tt, h ++ flat_map g ps).
Proof.
  intros Hf. revert h. induction ps as [|p rest IH]; intros h.
  - simpl. rewrite app_nil_r. reflexivity.
  - cbn [for_each flat_map]. unfold bind at 1. rewrite Hf, IH, app_assoc. reflexivity.
Qed.

Lemma rail_switch_run (tr : transport) (p : Z) (h : trace) :
  (forall h0 a r d, tr_write tr h0 a r d = true) ->
  rail_enable p tr h = (Ok tt, h ++ rail_switch_calls 0x80 p) /\
  rail_disable p tr h = (Ok tt, h ++ rail_switch_calls 0x00 p).
Proof.
  intros Hw. unfold rail_enable, rail_disable, select_page, write_byte, bind,
    i2c_write, sleep, rail_switch_calls.
  rewrite !Hw. cbv beta iota zeta. rewrite ?Hw, <- !app_assoc. split; reflexivity.
Qed.

Lemma main_after_unlock (cmd : command) (tr : transport) (h : trace) :
  (forall h0 a r d, tr_write tr h0 a r d = true) ->
  main cmd tr h =
  (match cmd with
   | NoArgs => ret tt
   | CmdStatus => show_status ;;; ret tt
   | CmdOn page => rail_enable page
   | CmdOff page => rail_disable page
   | CmdOnAll => for_each (map fst PAGES) rail_enable
   | CmdOffAll => for_each (map fst PAGES) rail_disable
   | CmdClear => clear_faults
   | CmdUnknown => ret tt
   end) tr (h ++ unlock_calls).
Proof. intros Hw. unfold main, bind at 1. rewrite unlock_run, Hw. reflexivity. Qed.

(** With a transport whose writes succeed, [on_all] (resp. [off_all]) unlocks
    the device, then for pages 0, 1, 2 in order selects the page and writes
    0x80 (resp. 0x00) to the operation register 0x01. *)
Theorem main_on_all_off_all (tr : transport) (h : trace) :
  (forall h0 a r d, tr_write tr h0 a r d = true) ->
  main CmdOnAll tr h
    = (Ok tt, h ++ unlock_calls ++ flat_map (rail_switch_calls 0x80) [0; 1; 2]%Z) /\
  main CmdOffAll tr h
    = (Ok tt, h ++ unlock_calls ++ flat_map (rail_switch_calls 0x00) [0; 1; 2]%Z).
Proof.
  intros Hw. rewrite !main_after_unlock by exact Hw.
  split;
    [ rewrite (for_each_run _ _ (rail_switch_calls 0x80))
    | rewrite (for_each_run _ _ (rail_switch_calls 0x00)) ];
    try (rewrite <- app_assoc; reflexivity);
    intros p h0; apply rail_switch_run; exact Hw.
Qed.

Lemma main_on_all_off_all_witness :
  (forall h0 a r d, tr_write (ok_transport (fun _ => 0%Z)) h0 a r d = true) /\
  main CmdOnAll (ok_transport (fun _ => 0%Z)) []
    = (Ok tt, [] ++ unlock_calls ++ flat_map (rail_switch_calls 0x80) [0; 1; 2]%Z) /\
  main CmdOffAll (ok_transport (fun _ => 0%Z)) []
    = (Ok tt, [] ++ unlock_calls ++ flat_map (rail_switch_calls 0x00) [0; 1; 2]%Z).
Proof.
  split; [reflexivity|].
  apply (main_on_all_off_all (ok_transport (fun _ => 0%Z)) []). reflexivity.
Defined.

(** With a transport whose writes succeed: [clear] unlocks, sends the
    command-only write (no data byte) to register 0x03 and waits 10 ms; the
    usage message and an unknown command only unlock. *)
Theorem main_clear_usage_unknown (tr : transport) (h : trace) :
  (forall h0 a r d, tr_write tr h0 a r d = true) ->
  main CmdClear tr h
    = (Ok tt, h ++ unlock_calls ++ [EvWrite MP5922_ADDR 0x03 []; EvSleep 0.01]) /\
  main NoArgs tr h = (Ok tt, h ++ unlock_calls) /\
  main CmdUnknown tr h = (Ok tt, h ++ unlock_calls).
Proof.
  intros Hw. rewrite !main_after_unlock by exact Hw.
  unfold clear_faults, bind, i2c_write, sleep. rewrite Hw.
  rewrite <- !app_assoc. repeat split.
Qed.

Lemma main_clear_usage_unknown_witness :
  (forall h0 a r d, tr_write (ok_transport (fun _ => 0%Z)) h0 a r d = true) /\
  main CmdClear (ok_transport (fun _ => 0%Z)) []
    = (Ok tt, [] ++ unlock_calls ++ [EvWrite MP5922_ADDR 0x03 []; EvSleep 0.01]) /\
  main NoArgs (ok_transport (fun _ => 0%Z)) [] = (Ok tt, [] ++ unlock_calls) /\
  main CmdUnknown (ok_transport (fun _ => 0%Z)) [] = (Ok tt, [] ++ unlock_calls).
Proof.
  split; [reflexivity|].
  apply (main_clear_usage_unknown (ok_transport (fun _ => 0%Z)) []). reflexivity.
Defined.

(** ** Consistency of the printed report *)




